(** * Block mover (native) and the reduced-motion style helper

    A shallow embedding of
    - [packages/block-editor/src/components/block-mover/index.native.js]
      (the [BlockMover] component with its [withSelect] / [withDispatch]
      wiring), and
    - the [reduceMotion] style helper, and
    - the [PluginSidebarMoreMenuItem] component with its wiring,
    together with the properties the specification states about them
    and further properties read off the code. *)

From Stdlib Require Import ZArith Bool String Ascii List Lia DecimalString.
From ExtLib Require Import Structures.Monad Structures.MonadState.
From ExtLib Require Import Data.Monads.StateMonad.
Import ListNotations.
Import MonadNotation.

Local Open Scope string_scope.
Local Open Scope Z_scope.

(* ===================================================================== *)
(** ** JavaScript values and the few library functions the sources use   *)
(* ===================================================================== *)

Module JS.

(** The JavaScript values that flow through the two sources.  Numbers
    are array indices and small sums of them, hence integers. *)
Inductive value : Type :=
| VUndefined
| VNull
| VBool (b : bool)
| VNum (n : Z)
| VStr (s : string).

(** [a === b] *)
Definition strict_eq (a b : value) : bool :=
  match a, b with
  | VUndefined, VUndefined => true
  | VNull, VNull => true
  | VBool x, VBool y => Bool.eqb x y
  | VNum x, VNum y => Z.eqb x y
  | VStr x, VStr y => String.eqb x y
  | _, _ => false
  end.

(** Truthiness, as tested by [!] and [&&]. *)
Definition truthy (v : value) : bool :=
  match v with
  | VUndefined | VNull => false
  | VBool b => b
  | VNum n => negb (Z.eqb n 0)
  | VStr s => negb (String.eqb s "")
  end.

(** [String( v )] *)
Definition toString (v : value) : string :=
  match v with
  | VUndefined => "undefined"
  | VNull => "null"
  | VBool true => "true"
  | VBool false => "false"
  | VNum n => NilZero.string_of_int (Z.to_int n)
  | VStr s => s
  end.

(** [Array.prototype.indexOf], scanning from index [k]. *)
Fixpoint indexOfFrom (k : Z) (x : string) (l : list string) : Z :=
  match l with
  | [] => -1
  | y :: t => if String.eqb y x then k else indexOfFrom (k + 1) x t
  end.

Definition indexOf (x : string) (l : list string) : Z := indexOfFrom 0 x l.

(** lodash [first]: [None] stands for [undefined] (empty array). *)
Definition first {A : Type} (l : list A) : option A :=
  match l with
  | [] => None
  | x :: _ => Some x
  end.

(** lodash [last]. *)
Fixpoint last {A : Type} (l : list A) : option A :=
  match l with
  | [] => None
  | [x] => Some x
  | _ :: t => last t
  end.

End JS.

Import JS.

(* ===================================================================== *)
(** ** The formatting service                                            *)
(* ===================================================================== *)

Module I18n.

Definition digit_of_ascii (c : ascii) : option nat :=
  let n := nat_of_ascii c in
  if ((48 <=? n) && (n <=? 57))%nat then Some (n - 48)%nat else None.

(** Scanner state while reading a format string. *)
Inductive scan : Type :=
| InText
| AfterPercent
| InIndex (n : nat)
| AfterDollar (n : nat).

(** The [n]-th positional argument, 1-based; a missing one is
    [undefined]. *)
Definition positional (n : nat) (args : list value) : value :=
  nth (n - 1) args VUndefined.

(** One pass over the format; [None] is a format error. *)
Fixpoint format_from (st : scan) (fmt : string) (args : list value)
  : option string :=
  match fmt with
  | EmptyString =>
      match st with
      | InText => Some EmptyString
      | _ => None
      end
  | String c rest =>
      match st with
      | InText =>
          if Ascii.eqb c "%" then format_from AfterPercent rest args
          else option_map (String c) (format_from InText rest args)
      | AfterPercent =>
          if Ascii.eqb c "%"
          then option_map (String "%") (format_from InText rest args)
          else match digit_of_ascii c with
               | Some (S d) => format_from (InIndex (S d)) rest args
               | _ => None
               end
      | InIndex n =>
          if Ascii.eqb c "$" then format_from (AfterDollar n) rest args
          else match digit_of_ascii c with
               | Some d => format_from (InIndex (10 * n + d)) rest args
               | None => None
               end
      | AfterDollar n =>
          if Ascii.eqb c "s"
          then option_map (append (toString (positional n args)))
                          (format_from InText rest args)
          else None
      end
  end.

(** Modelled from the spec: the localization/formatting service
    ([sprintf] of [@wordpress/i18n], whose code is not part of the
    sources), which maps a template and positional arguments to a
    display string.  The model covers the placeholders the sources
    use: [%N$s] is replaced by [String] of the [N]-th argument and
    [%%] by a percent sign; on a format error the service hands the
    format back unchanged. *)
Definition sprintf (fmt : string) (args : list value) : string :=
  match format_from InText fmt args with
  | Some s => s
  | None => fmt
  end.

End I18n.

Import I18n.

(* ===================================================================== *)
(** ** [reduceMotion]                                                    *)
(* ===================================================================== *)

Module Motion.

Definition nl : string := String "010" EmptyString.
Definition tab : string := String "009" EmptyString.

(** [export function reduceMotion( prop = 'transition' )].  The default
    applies when the argument is [undefined]. *)
Definition reduceMotion (prop : value) : string :=
  let prop := match prop with
              | VUndefined => VStr "transition"
              | v => v
              end in
  let style :=
    if strict_eq prop (VStr "transition") then
      "transition-duration: 0ms;"
    else if strict_eq prop (VStr "animation") then
      "animation-duration: 1ms;"
    else
      nl ++ tab ++ tab ++ tab ++ tab ++ "animation-duration: 1ms;"
         ++ nl ++ tab ++ tab ++ tab ++ tab ++ "transition-duration: 0ms;"
         ++ nl ++ tab ++ tab ++ tab in
  nl ++ tab ++ tab ++ "@media ( prefers-reduced-motion: reduce ) {"
     ++ nl ++ tab ++ tab ++ tab ++ style ++ ";"
     ++ nl ++ tab ++ tab ++ "}"
     ++ nl ++ tab.

(** The text the function puts around the declarations it selects:
    the media query, its braces, and the template's own [;]. *)
Definition inReducedMotionQuery (body : string) : string :=
  nl ++ tab ++ tab ++ "@media ( prefers-reduced-motion: reduce ) {"
     ++ nl ++ tab ++ tab ++ tab ++ body ++ ";"
     ++ nl ++ tab ++ tab ++ "}"
     ++ nl ++ tab.

(** Both declarations, as laid out in the [default] branch. *)
Definition bothDeclarations : string :=
  nl ++ tab ++ tab ++ tab ++ tab ++ "animation-duration: 1ms;"
     ++ nl ++ tab ++ tab ++ tab ++ tab ++ "transition-duration: 0ms;"
     ++ nl ++ tab ++ tab ++ tab.

End Motion.

(* ===================================================================== *)
(** ** The block mover                                                   *)
(* ===================================================================== *)

Module Mover.

Definition ClientId : Type := string.

(** The [clientIds] prop: one id or an array of ids. *)
Inductive ClientIds : Type :=
| OneId (id : ClientId)
| ManyIds (ids : list ClientId).

(** lodash [castArray]. *)
Definition castArray (c : ClientIds) : list ClientId :=
  match c with
  | OneId id => [id]
  | ManyIds ids => ids
  end.

(** The icons imported from [@wordpress/icons]. *)
Inductive Icon : Type := arrowUp | arrowDown | arrowLeft | arrowRight.

(** The two action creators of [dispatch( 'core/block-editor' )] the
    component is wired to. *)
Inductive ActionCreator : Type := moveBlocksDown | moveBlocksUp.

(** [partial( creator, clientIds, rootClientId )]: an action creator
    with its two leading arguments fixed. *)
Record Callback : Type := partial {
  creator : ActionCreator;
  boundClientIds : ClientIds;
  boundRootClientId : value
}.

(** The props [BlockMover] destructures.  The three flags come out of
    [===] in the [withSelect] mapping and [horizontalDirection] is only
    tested for truthiness, so all four are booleans. *)
Record Props : Type := {
  isFirst : bool;
  isLast : bool;
  isLocked : bool;
  onMoveDown : Callback;
  onMoveUp : Callback;
  firstIndex : Z;
  rootClientId : value;
  horizontalDirection : bool
}.

(** The props of one rendered [ToolbarButton]. *)
Record ToolbarButton : Type := {
  title : string;
  isDisabled : bool;
  onClick : Callback;
  icon : Icon;
  hint : string
}.

(** What the component returns: [None] is [null], [Some ( b1, b2 )]
    the fragment holding the two buttons. *)
Definition Rendering : Type := option (ToolbarButton * ToolbarButton).

Section Component.

(** The translation function [__] of [@wordpress/i18n]. *)
Variable __ : string -> string.

Definition firstButtonIcon (p : Props) : Icon :=
  if horizontalDirection p then arrowLeft else arrowUp.
Definition secondButtonIcon (p : Props) : Icon :=
  if horizontalDirection p then arrowRight else arrowDown.

Definition firstButtonHint (p : Props) : string :=
  if horizontalDirection p
  then __ "Double tap to move the block to the left"
  else __ "Double tap to move the block up".
Definition secondButtonHint (p : Props) : string :=
  if horizontalDirection p
  then __ "Double tap to move the block to the right"
  else __ "Double tap to move the block down".

Definition firstBlockTitle (p : Props) : string :=
  if horizontalDirection p
  then __ "Move block left"
  else __ "Move block up".
Definition lastBlockTitle (p : Props) : string :=
  if horizontalDirection p
  then __ "Move block right"
  else __ "Move block down".

Definition firstButtonDirection (p : Props) : string :=
  if horizontalDirection p then "left" else "up".
Definition secondButtonDirection (p : Props) : string :=
  if horizontalDirection p then "right" else "down".

Definition location (p : Props) : string :=
  if horizontalDirection p then "position" else "row".

Definition BlockMover (p : Props) : Rendering :=
  if isLocked p
     || (isFirst p && isLast p && negb (truthy (rootClientId p)))
  then None
  else
    Some
      ( {| title :=
             if negb (isFirst p)
             then sprintf
                    (__ "Move block %2$s from %1$s %3$s to %1$s %4$s")
                    [ VStr (location p);
                      VStr (firstButtonDirection p);
                      VNum (firstIndex p + 1);
                      VNum (firstIndex p) ]
             else firstBlockTitle p;
           isDisabled := isFirst p;
           onClick := onMoveUp p;
           icon := firstButtonIcon p;
           hint := firstButtonHint p |},
        {| title :=
             if negb (isLast p)
             then sprintf
                    (__ "Move block %2$s from %1$s %3$s to %1$s %4$s")
                    [ VStr (location p);
                      VStr (secondButtonDirection p);
                      VNum (firstIndex p + 1);
                      VNum (firstIndex p + 2) ]
             else lastBlockTitle p;
           isDisabled := isLast p;
           onClick := onMoveDown p;
           icon := secondButtonIcon p;
           hint := secondButtonHint p |} ).

End Component.

(** *** The wiring: [withSelect], [withDispatch], [withInstanceId] *)

(** The props the parent passes to the composed component. *)
Record OwnProps : Type := {
  clientIds : ClientIds;
  ownHorizontalDirection : bool
}.

(** The read port: the selectors of [select( 'core/block-editor' )]
    the mapping destructures, at one snapshot of the editor state.
    Their code is not part of the sources, so they are taken as
    given. *)
Record Selectors : Type := {
  getBlockRootClientId : option ClientId -> value;
  getBlockOrder : value -> list ClientId;
  getTemplateLock : value -> value
}.

(** Modelled from the spec: the selector [getBlockIndex] (missing from
    the sources), "getIndex(item, container) -> ordinal or not found":
    the index of the item within the ordering of the container, and
    [-1] when it is not there ([undefined] never is). *)
Definition getBlockIndex (sel : Selectors) (clientId : option ClientId)
           (root : value) : Z :=
  match clientId with
  | None => -1
  | Some c => indexOf c (getBlockOrder sel root)
  end.

(** The constants of the [withSelect] mapping, one definition each.
    The source's [rootClientId] and [firstIndex] are
    [selectedRootClientId] and [selectedFirstIndex] here, the plain
    names being the fields of [Props]. *)
Section MapSelect.
Variable sel : Selectors.
Variable own : OwnProps.

Definition normalizedClientIds : list ClientId :=
  castArray (clientIds own).
Definition firstClientId : option ClientId := first normalizedClientIds.
Definition selectedRootClientId : value :=
  getBlockRootClientId sel firstClientId.
Definition blockOrder : list ClientId :=
  getBlockOrder sel selectedRootClientId.
Definition selectedFirstIndex : Z :=
  getBlockIndex sel firstClientId selectedRootClientId.
Definition lastIndex : Z :=
  getBlockIndex sel (last normalizedClientIds) selectedRootClientId.
End MapSelect.

(** The object the [withSelect] mapping returns. *)
Record SelectProps : Type := {
  sel_firstIndex : Z;
  sel_isFirst : bool;
  sel_isLast : bool;
  sel_isLocked : bool;
  sel_rootClientId : value
}.

Definition mapSelectToProps (sel : Selectors) (own : OwnProps)
  : SelectProps :=
  {| sel_firstIndex := selectedFirstIndex sel own;
     sel_isFirst := Z.eqb (selectedFirstIndex sel own) 0;
     sel_isLast :=
       Z.eqb (lastIndex sel own)
             (Z.of_nat (List.length (blockOrder sel own)) - 1);
     sel_isLocked :=
       strict_eq (getTemplateLock sel (selectedRootClientId sel own))
                 (VStr "all");
     sel_rootClientId := selectedRootClientId sel own |}.

(** The object the [withDispatch] mapping returns.  It receives the
    props [withSelect] hands down, so [rootClientId] is the selected
    one. *)
Record DispatchProps : Type := {
  disp_onMoveDown : Callback;
  disp_onMoveUp : Callback
}.

Definition mapDispatchToProps (ids : ClientIds) (root : value)
  : DispatchProps :=
  {| disp_onMoveDown := partial moveBlocksDown ids root;
     disp_onMoveUp := partial moveBlocksUp ids root |}.

(** The props that reach [BlockMover] through
    [compose( withSelect, withDispatch, withInstanceId )]; the
    instance id is not among those the component reads. *)
Definition composedProps (sel : Selectors) (own : OwnProps) : Props :=
  let s := mapSelectToProps sel own in
  let d := mapDispatchToProps (clientIds own) (sel_rootClientId s) in
  {| isFirst := sel_isFirst s;
     isLast := sel_isLast s;
     isLocked := sel_isLocked s;
     onMoveDown := disp_onMoveDown d;
     onMoveUp := disp_onMoveUp d;
     firstIndex := sel_firstIndex s;
     rootClientId := sel_rootClientId s;
     horizontalDirection := ownHorizontalDirection own |}.

(** The exported component, against one snapshot of the selectors. *)
Definition resolve (__ : string -> string) (sel : Selectors)
           (own : OwnProps) : Rendering :=
  BlockMover __ (composedProps sel own).

(** *** What a rendering shows *)

Definition controlsVisible (r : Rendering) : bool :=
  match r with
  | Some _ => true
  | None => false
  end.

(** A control is enabled when it is rendered and not disabled. *)
Definition moveEarlierEnabled (r : Rendering) : bool :=
  match r with
  | Some (b1, _) => negb (isDisabled b1)
  | None => false
  end.

Definition moveLaterEnabled (r : Rendering) : bool :=
  match r with
  | Some (_, b2) => negb (isDisabled b2)
  | None => false
  end.

(** A button without its callback: label, enablement, icon, hint. *)
Definition look (b : ToolbarButton) : string * bool * Icon * string :=
  (title b, isDisabled b, icon b, hint b).

Definition appearance (r : Rendering)
  : option ((string * bool * Icon * string)
            * (string * bool * Icon * string)) :=
  match r with
  | Some (b1, b2) => Some (look b1, look b2)
  | None => None
  end.

(** [i] is the zero-based index of [c] in [l]: the position of its
    first occurrence. *)
Definition IsIndexIn (c : ClientId) (l : list ClientId) (i : Z) : Prop :=
  0 <= i
  /\ nth_error l (Z.to_nat i) = Some c
  /\ forall j, (j < Z.to_nat i)%nat -> nth_error l j <> Some c.

(** The direction word and the location noun of each axis. *)
Definition earlierWord (horizontal : bool) : string :=
  if horizontal then "left" else "up".
Definition laterWord (horizontal : bool) : string :=
  if horizontal then "right" else "down".
Definition locationNoun (horizontal : bool) : string :=
  if horizontal then "position" else "row".

(** The decimal numeral of an ordinal. *)
Definition ordinal (n : Z) : string := toString (VNum n).

(** No translation loaded: [__] hands its argument back. *)
Definition untranslated (s : string) : string := s.

(** The texts the component hands to [__] on one axis: the two hints,
    the two static titles and the template of the labels. *)
Definition translatedTexts (horizontal : bool) : list string :=
  if horizontal
  then [ "Double tap to move the block to the left";
         "Double tap to move the block to the right";
         "Move block left";
         "Move block right";
         "Move block %2$s from %1$s %3$s to %1$s %4$s" ]
  else [ "Double tap to move the block up";
         "Double tap to move the block down";
         "Move block up";
         "Move block down";
         "Move block %2$s from %1$s %3$s to %1$s %4$s" ].

(** What a rendering shows apart from its texts: whether there are
    buttons, and for each its enablement and icon. *)
Definition layout (r : Rendering) : option ((bool * Icon) * (bool * Icon)) :=
  match r with
  | Some (b1, b2) => Some ((isDisabled b1, icon b1), (isDisabled b2, icon b2))
  | None => None
  end.

(** *** Evaluation against the editor store *)

Section Store.

(** The editor state, its read port and its external mutator: what
    dispatching [creator( clientIds, rootClientId )] does to it. *)
Variable Store : Type.
Variable select : Store -> Selectors.
Variable dispatch : ActionCreator -> ClientIds -> value -> Store -> Store.

(** One render of the composed component. *)
Definition evaluate (__ : string -> string) (own : OwnProps)
  : state Store Rendering :=
  (st <- get ;;
   ret (resolve __ (select st) own))%monad.

(** A tap on a button calls its [onClick]. *)
Definition invoke (cb : Callback) : state Store unit :=
  (st <- get ;;
   put (dispatch (creator cb) (boundClientIds cb)
                 (boundRootClientId cb) st))%monad.

End Store.

End Mover.

(* ===================================================================== *)
(** ** The sidebar item of the More menu                                  *)
(* ===================================================================== *)

Module MoreMenu.

(** What an [icon] prop can hold: a plain value (a Dashicon slug, or
    nothing) or an element, named by the icon it draws. *)
Inductive IconRender : Type :=
| IconPlain (v : value)
| IconElement (name : string).

(** [check] of [@wordpress/icons]. *)
Definition check : IconRender := IconElement "check".

(** Truthiness of an icon prop: an element is an object. *)
Definition truthyIcon (i : IconRender) : bool :=
  match i with
  | IconPlain v => truthy v
  | IconElement _ => true
  end.

(** [a || b] on icon props. *)
Definition iconOr (a b : IconRender) : IconRender :=
  if truthyIcon a then a else b.

(** The two action creators of [dispatch( 'core/edit-post' )] the item
    is wired to, with the argument the wiring gives them. *)
Inductive SidebarAction : Type :=
| closeGeneralSidebar
| openGeneralSidebar (name : string).

(** The props the component destructures. *)
Record ItemProps : Type := {
  children : string;
  icon : IconRender;
  isSelected : bool;
  onClick : SidebarAction
}.

(** The [PluginMoreMenuItem] element the component returns. *)
Record PluginMoreMenuItem : Type := {
  item_icon : IconRender;
  item_isSelected : bool;
  item_role : string;
  item_onClick : SidebarAction;
  item_children : string
}.

Definition PluginSidebarMoreMenuItem (p : ItemProps) : PluginMoreMenuItem :=
  {| item_icon := if isSelected p then check else icon p;
     item_isSelected := isSelected p;
     item_role := "menuitemcheckbox";
     item_onClick := onClick p;
     item_children := children p |}.

(** The plugin context: the name the plugin was registered under and
    its icon. *)
Record PluginContext : Type := {
  name : string;
  contextIcon : IconRender
}.

(** The props the parent passes: the target sidebar, an optional icon,
    and the label. *)
Record ItemOwnProps : Type := {
  target : value;
  ownIcon : IconRender;
  ownChildren : string
}.

(** The [withPluginContext] mapping: the template literal
    [`${ context.name }/${ ownProps.target }`] and the icon. *)
Definition sidebarName (context : PluginContext) (own : ItemOwnProps)
  : string :=
  name context ++ "/" ++ toString (target own).

Definition contextMappedIcon (context : PluginContext) (own : ItemOwnProps)
  : IconRender :=
  iconOr (ownIcon own) (contextIcon context).

(** The [withSelect] mapping, against the value
    [getActiveGeneralSidebarName()] returns. *)
Definition mapSelectIsSelected (active : value) (sidebar : string) : bool :=
  strict_eq active (VStr sidebar).

(** The [withDispatch] mapping. *)
Definition mapDispatchOnClick (selected : bool) (sidebar : string)
  : SidebarAction :=
  if selected then closeGeneralSidebar else openGeneralSidebar sidebar.

(** The props that reach the component through
    [compose( withPluginContext, withSelect, withDispatch )]. *)
Definition composedItemProps (active : value) (context : PluginContext)
           (own : ItemOwnProps) : ItemProps :=
  let sidebar := sidebarName context own in
  let selected := mapSelectIsSelected active sidebar in
  {| children := ownChildren own;
     icon := contextMappedIcon context own;
     isSelected := selected;
     onClick := mapDispatchOnClick selected sidebar |}.

(** The exported component, against one value of the selector. *)
Definition menuItem (active : value) (context : PluginContext)
           (own : ItemOwnProps) : PluginMoreMenuItem :=
  PluginSidebarMoreMenuItem (composedItemProps active context own).

(** A string without the separator [/]. *)
Fixpoint slashFree (s : string) : bool :=
  match s with
  | EmptyString => true
  | String c rest => negb (Ascii.eqb c "/") && slashFree rest
  end.

Section EditPost.

(** The edit-post state, its selector and its external mutator. *)
Variable Store : Type.
Variable getActiveGeneralSidebarName : Store -> value.
Variable dispatch : SidebarAction -> Store -> Store.

(** One render of the composed item. *)
Definition renderItem (context : PluginContext) (own : ItemOwnProps)
  : state Store PluginMoreMenuItem :=
  (st <- get ;;
   ret (menuItem (getActiveGeneralSidebarName st) context own))%monad.

(** A click on the item calls its [onClick]. *)
Definition click (item : PluginMoreMenuItem) : state Store unit :=
  (st <- get ;;
   put (dispatch (item_onClick item) st))%monad.

(** Render, click what was rendered, render again. *)
Definition renderClickRender (context : PluginContext) (own : ItemOwnProps)
  : state Store (PluginMoreMenuItem * PluginMoreMenuItem) :=
  (before <- renderItem context own ;;
   click before ;;
   after <- renderItem context own ;;
   ret (before, after))%monad.

End EditPost.

End MoreMenu.

Import Motion Mover.

(* ===================================================================== *)
(** ** Sample editor snapshots                                           *)
(* ===================================================================== *)

Module Samples.

(** One container holding the given blocks, with the given root id and
    template lock for every block. *)
Definition snapshot (root : value) (order : list ClientId) (lock : value)
  : Selectors :=
  {| getBlockRootClientId := fun _ => root;
     getBlockOrder := fun _ => order;
     getTemplateLock := fun _ => lock |}.

Definition abc : Selectors := snapshot (VStr "") ["A"; "B"; "C"] VUndefined.

Definition selectA : OwnProps :=
  {| clientIds := OneId "A"; ownHorizontalDirection := false |}.
Definition selectB : OwnProps :=
  {| clientIds := OneId "B"; ownHorizontalDirection := false |}.
Definition selectBC : OwnProps :=
  {| clientIds := ManyIds ["B"; "C"]; ownHorizontalDirection := true |}.

(** A store that is just its block order at the top level; moving up
    or down is left to the external mutator, here a rotation. *)
Definition ListStore : Type := list ClientId.
Definition listSelect (st : ListStore) : Selectors :=
  snapshot (VStr "") st VUndefined.
Definition lockedSelect (st : ListStore) : Selectors :=
  snapshot (VStr "group") st (VStr "all").
Definition listDispatch (a : ActionCreator) (_ : ClientIds) (_ : value)
           (st : ListStore) : ListStore :=
  match a with
  | moveBlocksUp => List.rev st
  | moveBlocksDown => List.tl st
  end.

(** Two translation tables of one entry each. *)
Definition translatedUp (s : string) : string :=
  if String.eqb s "Move block up" then "Monter le bloc" else s.
Definition translatedLeft (s : string) : string :=
  if String.eqb s "Move block left" then "Deplacer a gauche" else s.

End Samples.

Import Samples.

Module MenuSamples.

Import MoreMenu.

Definition myPlugin : PluginContext :=
  {| name := "my-plugin"; contextIcon := IconPlain (VStr "admin-plugins") |}.

Definition otherPlugin : PluginContext :=
  {| name := "other"; contextIcon := IconElement "cog" |}.

Definition mySidebarItem : ItemOwnProps :=
  {| target := VStr "my-sidebar";
     ownIcon := IconPlain VUndefined;
     ownChildren := "My sidebar title" |}.

Definition secondItem : ItemOwnProps :=
  {| target := VStr "second";
     ownIcon := IconElement "more";
     ownChildren := "Second" |}.

(** A store that is just the name of the active general sidebar. *)
Definition NameStore : Type := value.
Definition nameOf (st : NameStore) : value := st.
Definition nameDispatch (a : SidebarAction) (_ : NameStore) : NameStore :=
  match a with
  | closeGeneralSidebar => VNull
  | openGeneralSidebar n => VStr n
  end.

End MenuSamples.

(* ===================================================================== *)
(** ** Facts about the JavaScript helpers                                *)
(* ===================================================================== *)

Section JSFacts.

Lemma append_empty_r (s : string) : s ++ "" = s.
Proof. induction s as [| c s IH]; simpl; [| rewrite IH]; reflexivity. Qed.

Lemma strict_eq_str (v : value) (s : string) :
  strict_eq v (VStr s) = true <-> v = VStr s.
Proof.
  destruct v as [| | b | n | t]; simpl; split; intros H;
    try discriminate; try congruence.
  - apply String.eqb_eq in H. now subst.
  - injection H as ->. apply String.eqb_refl.
Qed.

Lemma strict_eq_str_false (v : value) (s : string) :
  v <> VStr s -> strict_eq v (VStr s) = false.
Proof.
  intros H. destruct (strict_eq v (VStr s)) eqn:E; [| reflexivity].
  apply strict_eq_str in E. contradiction.
Qed.

(** [indexOfFrom] either reports [-1], when the item is absent, or the
    offset of its first occurrence counted from [k]. *)
Lemma indexOfFrom_spec (x : string) (l : list string) :
  forall k,
    (~ In x l /\ indexOfFrom k x l = -1)
    \/ (exists n : nat,
           indexOfFrom k x l = k + Z.of_nat n
           /\ nth_error l n = Some x
           /\ forall j, (j < n)%nat -> nth_error l j <> Some x).
Proof.
  induction l as [| y t IH]; intros k; simpl.
  - left. split; [tauto | reflexivity].
  - destruct (String.eqb_spec y x) as [-> | Hne].
    + right. exists 0%nat. repeat split.
      * lia.
      * intros j Hj. lia.
    + destruct (IH (k + 1)) as [[Hnot Hm] | (n & Hn & Hnth & Hmin)].
      * left. split; [| exact Hm]. intros [Hy | Hin]; [congruence | tauto].
      * right. exists (S n). repeat split.
        -- rewrite Hn. lia.
        -- exact Hnth.
        -- intros [| j] Hj; simpl.
           ++ congruence.
           ++ apply Hmin. lia.
Qed.

Lemma indexOf_present (x : string) (l : list string) :
  In x l -> IsIndexIn x l (indexOf x l).
Proof.
  intros Hin. unfold indexOf, IsIndexIn.
  destruct (indexOfFrom_spec x l 0) as [[Hnot _] | (n & Hn & Hnth & Hmin)].
  - contradiction.
  - rewrite Hn. simpl. rewrite Nat2Z.id. split; [lia | split; assumption].
Qed.

Lemma indexOf_absent (x : string) (l : list string) :
  ~ In x l -> indexOf x l = -1.
Proof.
  intros Hnot. unfold indexOf.
  destruct (indexOfFrom_spec x l 0) as [[_ Hm] | (n & _ & Hnth & _)].
  - exact Hm.
  - exfalso. apply Hnot. eapply nth_error_In. exact Hnth.
Qed.

End JSFacts.

(* ===================================================================== *)
(** ** [reduceMotion]: the fragment it returns                           *)
(* ===================================================================== *)

Section MotionFacts.

Lemma reduceMotion_other (s : string) :
  s <> "transition" -> s <> "animation" ->
  reduceMotion (VStr s) = inReducedMotionQuery bothDeclarations.
Proof.
  intros Ht Ha. unfold reduceMotion.
  rewrite (strict_eq_str_false (VStr s) "transition") by congruence.
  rewrite (strict_eq_str_false (VStr s) "animation") by congruence.
  reflexivity.
Qed.

(** C10.  [reduceMotion] returns its declarations inside a
    [@media ( prefers-reduced-motion: reduce )] query.  The declarations
    are exactly [transition-duration: 0ms;] for the prop ['transition']
    and when no argument is given, exactly [animation-duration: 1ms;]
    for ['animation'], and both of them for every other string. *)
Theorem reduceMotion_fragment :
  reduceMotion VUndefined
    = inReducedMotionQuery "transition-duration: 0ms;"
  /\ reduceMotion (VStr "transition")
    = inReducedMotionQuery "transition-duration: 0ms;"
  /\ reduceMotion (VStr "animation")
    = inReducedMotionQuery "animation-duration: 1ms;"
  /\ (forall s : string,
        s <> "transition" -> s <> "animation" ->
        reduceMotion (VStr s)
          = inReducedMotionQuery
              (nl ++ tab ++ tab ++ tab ++ tab ++ "animation-duration: 1ms;"
                  ++ nl ++ tab ++ tab ++ tab ++ tab
                  ++ "transition-duration: 0ms;"
                  ++ nl ++ tab ++ tab ++ tab)).
Proof.
  repeat split; try reflexivity.
  intros s Ht Ha. now rewrite reduceMotion_other.
Qed.

Lemma reduceMotion_fragment_witness :
  reduceMotion (VStr "opacity") = inReducedMotionQuery bothDeclarations.
Proof.
  apply (proj2 (proj2 (proj2 reduceMotion_fragment)) "opacity");
    discriminate.
Defined.

End MotionFacts.

(* ===================================================================== *)
(** ** The component: visibility and enablement                          *)
(* ===================================================================== *)

Section Visibility.

Variable __ : string -> string.

Lemma BlockMover_hidden (p : Props) :
  isLocked p || (isFirst p && isLast p && negb (truthy (rootClientId p)))
    = true ->
  BlockMover __ p = None.
Proof. intros H. unfold BlockMover. now rewrite H. Qed.

Lemma BlockMover_shown (p : Props) :
  isLocked p || (isFirst p && isLast p && negb (truthy (rootClientId p)))
    = false ->
  exists b1 b2,
    BlockMover __ p = Some (b1, b2)
    /\ isDisabled b1 = isFirst p /\ isDisabled b2 = isLast p
    /\ onClick b1 = onMoveUp p /\ onClick b2 = onMoveDown p.
Proof.
  intros H. unfold BlockMover. rewrite H.
  eexists; eexists; split; [reflexivity |]. simpl. tauto.
Qed.

Lemma controlsVisible_eq (p : Props) :
  controlsVisible (BlockMover __ p)
    = negb (isLocked p)
      && negb (isFirst p && isLast p && negb (truthy (rootClientId p))).
Proof.
  unfold BlockMover.
  destruct (isLocked p), (isFirst p), (isLast p),
    (truthy (rootClientId p)); reflexivity.
Qed.

Lemma moveEarlierEnabled_eq (p : Props) :
  moveEarlierEnabled (BlockMover __ p)
    = negb (isFirst p) && negb (isLocked p).
Proof.
  unfold BlockMover.
  destruct (isLocked p), (isFirst p), (isLast p),
    (truthy (rootClientId p)); reflexivity.
Qed.

Lemma moveLaterEnabled_eq (p : Props) :
  moveLaterEnabled (BlockMover __ p)
    = negb (isLast p) && negb (isLocked p).
Proof.
  unfold BlockMover.
  destruct (isLocked p), (isFirst p), (isLast p),
    (truthy (rootClientId p)); reflexivity.
Qed.

(** C1.  The controls are visible (the component renders its two
    buttons and not [null]) if and only if the container is not
    fully locked and it is not the case that the selection is first
    and last while there is no root container ([rootClientId] is
    falsy). *)
Theorem controls_visible_iff (p : Props) :
  controlsVisible (BlockMover __ p)
    = negb (isLocked p)
      && negb (isFirst p && isLast p && negb (truthy (rootClientId p)))
  /\ (controlsVisible (BlockMover __ p) = true
      <-> isLocked p = false
          /\ ~ (isFirst p = true /\ isLast p = true
                /\ truthy (rootClientId p) = false)).
Proof.
  split; [apply controlsVisible_eq |].
  rewrite controlsVisible_eq.
  destruct (isLocked p), (isFirst p), (isLast p),
    (truthy (rootClientId p)); simpl; intuition congruence.
Qed.

(** C2.  For every selection (so for every non-empty one contained in
    the ordering), the move-earlier control is enabled iff the
    selection is not first and the container is not fully locked, the
    move-later control iff it is not last and the container is not
    fully locked; when the container is unlocked, exactly one of
    [isFirst] and [moveEarlierEnabled] holds, and exactly one of
    [isLast] and [moveLaterEnabled]. *)
Theorem move_controls_enabled (sel : Selectors) (own : OwnProps) :
  let p := composedProps sel own in
  let r := resolve __ sel own in
  moveEarlierEnabled r = negb (isFirst p) && negb (isLocked p)
  /\ moveLaterEnabled r = negb (isLast p) && negb (isLocked p)
  /\ (isLocked p = false ->
      xorb (isFirst p) (moveEarlierEnabled r) = true
      /\ xorb (isLast p) (moveLaterEnabled r) = true).
Proof.
  intros p r. subst r. unfold resolve. fold p.
  rewrite moveEarlierEnabled_eq, moveLaterEnabled_eq.
  split; [reflexivity | split; [reflexivity |]].
  intros Hun. rewrite Hun. cbn [negb]. rewrite !andb_true_r.
  split; [now destruct (isFirst p) | now destruct (isLast p)].
Qed.

End Visibility.

Lemma move_controls_enabled_witness :
  let p := composedProps abc selectB in
  let r := resolve untranslated abc selectB in
  isLocked p = false
  /\ xorb (isFirst p) (moveEarlierEnabled r) = true
  /\ xorb (isLast p) (moveLaterEnabled r) = true.
Proof.
  split; [reflexivity |].
  apply (proj2 (proj2 (move_controls_enabled untranslated abc selectB))).
  reflexivity.
Defined.

(* ===================================================================== *)
(** ** The component: labels                                             *)
(* ===================================================================== *)

Section Labels.

(** The template, filled in by the formatting service: the second
    argument lands in the first slot, the first argument in the two
    [%1$s] slots. *)
Lemma sprintf_move_template (a1 a2 a3 a4 : value) :
  sprintf "Move block %2$s from %1$s %3$s to %1$s %4$s" [a1; a2; a3; a4]
    = "Move block " ++ toString a2
        ++ " from " ++ toString a1 ++ " " ++ toString a3
        ++ " to " ++ toString a1 ++ " " ++ toString a4.
Proof.
  unfold sprintf. cbv -[toString append].
  rewrite append_empty_r. reflexivity.
Qed.

(** C4.  In a rendering, with no translation loaded: a control whose
    boundary flag is false carries a label that embeds the direction
    word of the axis, the location noun ([row] when vertical,
    [position] when horizontal), the current ordinal [firstIndex + 1]
    and the target ordinal, [firstIndex] for the earlier control and
    [firstIndex + 2] for the later one; a control whose boundary flag
    is true carries the static title of the axis. *)
Theorem rendered_labels (p : Props) (b1 b2 : ToolbarButton) :
  BlockMover untranslated p = Some (b1, b2) ->
  let h := horizontalDirection p in
  title b1
    = (if isFirst p
       then (if h then "Move block left" else "Move block up")
       else "Move block " ++ earlierWord h
              ++ " from " ++ locationNoun h ++ " "
              ++ ordinal (firstIndex p + 1)
              ++ " to " ++ locationNoun h ++ " "
              ++ ordinal (firstIndex p))
  /\ title b2
    = (if isLast p
       then (if h then "Move block right" else "Move block down")
       else "Move block " ++ laterWord h
              ++ " from " ++ locationNoun h ++ " "
              ++ ordinal (firstIndex p + 1)
              ++ " to " ++ locationNoun h ++ " "
              ++ ordinal (firstIndex p + 2)).
Proof.
  unfold BlockMover, untranslated.
  destruct (isLocked p
            || (isFirst p && isLast p && negb (truthy (rootClientId p))));
    [discriminate |].
  intros Hr. injection Hr as <- <-. cbn [title].
  rewrite !sprintf_move_template.
  unfold firstBlockTitle, lastBlockTitle, firstButtonDirection,
    secondButtonDirection, location, ordinal, earlierWord, laterWord,
    locationNoun.
  cbn [toString].
  split; [destruct (isFirst p) | destruct (isLast p)]; reflexivity.
Qed.

Lemma rendered_labels_witness :
  exists b1 b2,
    BlockMover untranslated (composedProps abc selectBC) = Some (b1, b2)
    /\ title b1 = "Move block left from position 2 to position 1"
    /\ title b2 = "Move block right".
Proof.
  eexists; eexists; split; [reflexivity |].
  apply (rendered_labels (composedProps abc selectBC)). reflexivity.
Defined.

End Labels.

(* ===================================================================== *)
(** ** The wiring: indices, flags and the lock                           *)
(* ===================================================================== *)

Section Wiring.

Variable sel : Selectors.
Variable own : OwnProps.

(** C5.  [firstIndex] is the zero-based index of the first selected
    item within the ordering and [lastIndex] that of the last selected
    item, and the flags are [isFirst = (firstIndex == 0)] and
    [isLast = (lastIndex == length(ordering) - 1)]. *)
Theorem indices_and_flags :
  let p := composedProps sel own in
  let ordering := blockOrder sel own in
  (forall c, first (castArray (clientIds own)) = Some c ->
             In c ordering -> IsIndexIn c ordering (firstIndex p))
  /\ (forall c, last (castArray (clientIds own)) = Some c ->
                In c ordering -> IsIndexIn c ordering (lastIndex sel own))
  /\ isFirst p = (firstIndex p =? 0)
  /\ isLast p
     = (lastIndex sel own =? Z.of_nat (List.length ordering) - 1).
Proof.
  cbn zeta. split; [| split; [| split; reflexivity]].
  - intros c Hc Hin. cbn [composedProps firstIndex mapSelectToProps
                            sel_firstIndex].
    unfold selectedFirstIndex, firstClientId, normalizedClientIds.
    rewrite Hc. cbn [getBlockIndex].
    apply indexOf_present. exact Hin.
  - intros c Hc Hin. unfold lastIndex, normalizedClientIds.
    rewrite Hc. cbn [getBlockIndex].
    apply indexOf_present. exact Hin.
Qed.

(** C9.  The container counts as fully locked exactly when the
    template lock is the string ['all'].  For every other lock value
    the controls are shown and enabled by position alone. *)
Theorem locked_only_by_all :
  let p := composedProps sel own in
  let lock := getTemplateLock sel (selectedRootClientId sel own) in
  (isLocked p = true <-> lock = VStr "all")
  /\ (lock <> VStr "all" ->
      forall __ : string -> string,
        let r := resolve __ sel own in
        isLocked p = false
        /\ controlsVisible r
           = negb (isFirst p && isLast p
                   && negb (truthy (rootClientId p)))
        /\ moveEarlierEnabled r = negb (isFirst p)
        /\ moveLaterEnabled r = negb (isLast p)).
Proof.
  intros p lock. split.
  - apply strict_eq_str.
  - intros Hlock __ r.
    assert (Hun : isLocked p = false)
      by (apply strict_eq_str_false; exact Hlock).
    subst r. unfold resolve. fold p.
    rewrite controlsVisible_eq, moveEarlierEnabled_eq,
      moveLaterEnabled_eq, Hun.
    cbn [negb andb]. rewrite !andb_true_r. auto.
Qed.

End Wiring.

Lemma indices_and_flags_witness :
  IsIndexIn "B" ["A"; "B"; "C"] 1 /\ IsIndexIn "C" ["A"; "B"; "C"] 2.
Proof.
  split.
  - apply (proj1 (indices_and_flags abc selectBC) "B");
      [reflexivity | simpl; tauto].
  - apply (proj1 (proj2 (indices_and_flags abc selectBC)) "C");
      [reflexivity | simpl; tauto].
Defined.

Lemma locked_only_by_all_witness :
  let s := snapshot (VStr "") ["A"; "B"; "C"] (VStr "insert") in
  let r := resolve untranslated s selectA in
  controlsVisible r = true
  /\ moveEarlierEnabled r = false
  /\ moveLaterEnabled r = true.
Proof.
  intros s r.
  apply (proj2 (locked_only_by_all s selectA)). discriminate.
Defined.

(* ===================================================================== *)
(** ** Example 1 of the specification                                    *)
(* ===================================================================== *)

Section Example1.

(** C3, as the specification words it, fails: the later label does not
    read [Move block row from down 1 to down 2]. *)
Lemma example1_spec_label_refuted :
  ~ (exists b1 b2,
        resolve untranslated abc selectA = Some (b1, b2)
        /\ isFirst (composedProps abc selectA) = true
        /\ isLast (composedProps abc selectA) = false
        /\ isDisabled b1 = true
        /\ title b1 = "Move block up"
        /\ isDisabled b2 = false
        /\ title b2 = "Move block row from down 1 to down 2").
Proof.
  intros (b1 & b2 & Hr & _ & _ & _ & _ & _ & Ht).
  vm_compute in Hr. injection Hr as <- <-.
  discriminate Ht.
Qed.

(** C3, amended.  With ordering [A, B, C], selection [A], an unlocked
    container and the vertical axis: [isFirst] holds, [isLast] does
    not, the earlier control is disabled with the static label
    [Move block up], the later control is enabled and its label is
    [Move block down from row 1 to row 2]. *)
Theorem example1_labels (sel : Selectors) (own : OwnProps) :
  blockOrder sel own = ["A"; "B"; "C"] ->
  castArray (clientIds own) = ["A"] ->
  getTemplateLock sel (selectedRootClientId sel own) <> VStr "all" ->
  ownHorizontalDirection own = false ->
  exists b1 b2,
    resolve untranslated sel own = Some (b1, b2)
    /\ isFirst (composedProps sel own) = true
    /\ isLast (composedProps sel own) = false
    /\ isDisabled b1 = true
    /\ title b1 = "Move block up"
    /\ isDisabled b2 = false
    /\ title b2 = "Move block down from row 1 to row 2".
Proof.
  intros Horder Hsel Hlock Haxis.
  assert (Hfirst : isFirst (composedProps sel own) = true).
  { cbn. unfold selectedFirstIndex, firstClientId, normalizedClientIds.
    rewrite Hsel. cbn [first getBlockIndex].
    fold (blockOrder sel own). rewrite Horder. reflexivity. }
  assert (Hidx : firstIndex (composedProps sel own) = 0).
  { cbn. unfold selectedFirstIndex, firstClientId, normalizedClientIds.
    rewrite Hsel. cbn [first getBlockIndex].
    fold (blockOrder sel own). rewrite Horder. reflexivity. }
  assert (Hlast : isLast (composedProps sel own) = false).
  { cbn. unfold lastIndex, normalizedClientIds.
    rewrite Hsel. cbn [last getBlockIndex].
    fold (blockOrder sel own). rewrite Horder. reflexivity. }
  assert (Hun : isLocked (composedProps sel own) = false)
    by (apply strict_eq_str_false; exact Hlock).
  assert (Hax : horizontalDirection (composedProps sel own) = false)
    by exact Haxis.
  unfold resolve, BlockMover.
  rewrite Hun, Hfirst, Hlast, Hidx. cbn [orb andb negb].
  eexists; eexists; split; [reflexivity |].
  cbn [title isDisabled].
  rewrite sprintf_move_template.
  unfold firstBlockTitle, location, secondButtonDirection, untranslated.
  rewrite Hax. repeat split.
Qed.

Lemma example1_labels_witness :
  exists b1 b2,
    resolve untranslated abc selectA = Some (b1, b2)
    /\ isFirst (composedProps abc selectA) = true
    /\ isLast (composedProps abc selectA) = false
    /\ isDisabled b1 = true
    /\ title b1 = "Move block up"
    /\ isDisabled b2 = false
    /\ title b2 = "Move block down from row 1 to row 2".
Proof.
  apply (example1_labels abc selectA);
    [reflexivity | reflexivity | discriminate | reflexivity].
Defined.

End Example1.

(* ===================================================================== *)
(** ** Evaluation against the store                                      *)
(* ===================================================================== *)

Section Evaluation.

Variable Store : Type.
Variable select : Store -> Selectors.
Variable __ : string -> string.

Lemma evaluate_run (own : OwnProps) (st : Store) :
  runState (evaluate Store select __ own) st
    = (resolve __ (select st) own, st).
Proof. reflexivity. Qed.

(** Two renders in a row against the same store give the same
    rendering twice. *)
Lemma evaluate_twice (own : OwnProps) (st : Store) :
  runState (r1 <- evaluate Store select __ own ;;
            r2 <- evaluate Store select __ own ;;
            ret (r1, r2))%monad st
    = ((resolve __ (select st) own, resolve __ (select st) own), st).
Proof. reflexivity. Qed.

(** C6, as the specification words it, fails: the same six inputs give
    another label once another translation is loaded, so [isFirst],
    [isLast], [isLocked], [firstIndex], [rootClientId] and the axis do
    not determine the labels on their own. *)
Lemma same_inputs_other_translation :
  ~ (forall (tr1 tr2 : string -> string) (p q : Props),
        isFirst p = isFirst q ->
        isLast p = isLast q ->
        isLocked p = isLocked q ->
        firstIndex p = firstIndex q ->
        rootClientId p = rootClientId q ->
        horizontalDirection p = horizontalDirection q ->
        appearance (BlockMover tr1 p) = appearance (BlockMover tr2 q)).
Proof.
  intros Hall.
  specialize (Hall untranslated translatedUp
                   (composedProps abc selectA) (composedProps abc selectA)
                   eq_refl eq_refl eq_refl eq_refl eq_refl eq_refl).
  vm_compute in Hall. discriminate Hall.
Qed.

(** C6, amended.  For two evaluations that agree on [isFirst], [isLast],
    [isLocked], [firstIndex], [rootClientId] and the axis: visibility,
    enablement and icons are the same whatever the callbacks and
    whatever translations are loaded in either; labels and hints are
    the same as soon as the two translation functions agree on the five
    texts of the axis.  Nothing else has a say. *)
Theorem appearance_determined_up_to_translation
        (tr1 tr2 : string -> string) (p q : Props) :
  isFirst p = isFirst q ->
  isLast p = isLast q ->
  isLocked p = isLocked q ->
  firstIndex p = firstIndex q ->
  rootClientId p = rootClientId q ->
  horizontalDirection p = horizontalDirection q ->
  layout (BlockMover tr1 p) = layout (BlockMover tr2 q)
  /\ ((forall s, In s (translatedTexts (horizontalDirection p)) ->
                 tr1 s = tr2 s) ->
      appearance (BlockMover tr1 p) = appearance (BlockMover tr2 q)).
Proof.
  destruct p as [pf pl pk pd pu pi pr ph], q as [qf ql qk qd qu qi qr qh].
  cbn [isFirst isLast isLocked firstIndex rootClientId horizontalDirection].
  intros -> -> -> -> -> ->.
  unfold BlockMover.
  cbn [isFirst isLast isLocked firstIndex rootClientId horizontalDirection].
  destruct (qk || (qf && ql && negb (truthy qr))); [now split |].
  split; [reflexivity |].
  intros Hagree.
  unfold appearance, look, firstBlockTitle, lastBlockTitle,
    firstButtonHint, secondButtonHint, firstButtonIcon, secondButtonIcon,
    firstButtonDirection, secondButtonDirection, location.
  cbn [title isDisabled icon hint horizontalDirection].
  destruct qh; cbn [translatedTexts] in Hagree;
    repeat match goal with
           | |- context [tr1 ?s] =>
               rewrite (Hagree s) by (simpl; auto 10)
           end;
    reflexivity.
Qed.

(** C7.  When the container is fully locked, the evaluation completes
    and returns the empty rendering, with the store as it was: the
    lock shows as hidden controls, not as a failure. *)
Theorem locked_renders_nothing (own : OwnProps) (st : Store) :
  getTemplateLock (select st) (selectedRootClientId (select st) own)
    = VStr "all" ->
  runState (evaluate Store select __ own) st = (None, st).
Proof.
  intros Hlock. rewrite evaluate_run. f_equal.
  unfold resolve. apply BlockMover_hidden.
  apply orb_true_iff. left.
  cbn [composedProps isLocked mapSelectToProps sel_isLocked].
  rewrite Hlock. reflexivity.
Qed.

Variable dispatch : ActionCreator -> ClientIds -> value -> Store -> Store.

(** C8.  An evaluation leaves the store, and with it the ordering and
    the lock state it read, as they were.  Movement happens only
    through the two callbacks on the buttons, which are the supplied
    action creators [moveBlocksUp] and [moveBlocksDown] applied to the
    selection and its container: a tap hands them to the external
    mutator. *)
Theorem evaluation_frame (own : OwnProps) (st : Store) :
  execState (evaluate Store select __ own) st = st
  /\ forall b1 b2,
      evalState (evaluate Store select __ own) st = Some (b1, b2) ->
      let root := selectedRootClientId (select st) own in
      onClick b1 = partial moveBlocksUp (clientIds own) root
      /\ onClick b2 = partial moveBlocksDown (clientIds own) root
      /\ execState (invoke Store dispatch (onClick b1)) st
         = dispatch moveBlocksUp (clientIds own) root st
      /\ execState (invoke Store dispatch (onClick b2)) st
         = dispatch moveBlocksDown (clientIds own) root st.
Proof.
  split; [reflexivity |].
  intros b1 b2 Hr root.
  change (resolve __ (select st) own = Some (b1, b2)) in Hr.
  unfold resolve, BlockMover in Hr.
  destruct (isLocked _ || _) in Hr; [discriminate |].
  injection Hr as <- <-. repeat split.
Qed.

End Evaluation.

Lemma appearance_determined_up_to_translation_witness :
  let p := composedProps abc selectB in
  let q := composedProps (snapshot (VStr "") ["X"; "Y"; "Z"] VNull)
             {| clientIds := ManyIds ["Y"];
                ownHorizontalDirection := false |} in
  layout (BlockMover untranslated p) = layout (BlockMover translatedUp q)
  /\ appearance (BlockMover untranslated p)
     = appearance (BlockMover translatedLeft q).
Proof.
  intros p q. split.
  - apply (appearance_determined_up_to_translation
             untranslated translatedUp p q); reflexivity.
  - apply (appearance_determined_up_to_translation
             untranslated translatedLeft p q); try reflexivity.
    intros s Hs. simpl in Hs.
    destruct Hs as [<- | [<- | [<- | [<- | [<- | []]]]]]; reflexivity.
Defined.

Lemma locked_renders_nothing_witness :
  runState (evaluate ListStore lockedSelect untranslated selectB)
           ["A"; "B"; "C"]
  = (None, ["A"; "B"; "C"]).
Proof.
  apply (locked_renders_nothing ListStore lockedSelect untranslated selectB).
  reflexivity.
Defined.

Lemma evaluation_frame_witness :
  exists b1 b2,
    evalState (evaluate ListStore listSelect untranslated selectB)
              ["A"; "B"; "C"] = Some (b1, b2)
    /\ execState (invoke ListStore listDispatch (onClick b1)) ["A"; "B"; "C"]
       = ["C"; "B"; "A"]
    /\ execState (invoke ListStore listDispatch (onClick b2)) ["A"; "B"; "C"]
       = ["B"; "C"].
Proof.
  eexists; eexists; split; [reflexivity |].
  apply (proj2 (evaluation_frame ListStore listSelect untranslated
                  listDispatch selectB ["A"; "B"; "C"]) _ _ eq_refl).
Defined.

(* ===================================================================== *)
(** ** More about indices: the head, the tail end, the absent item       *)
(* ===================================================================== *)

Section IndexFacts.

Lemma indexOfFrom_range (x : string) (l : list string) (k : Z) :
  indexOfFrom k x l = -1
  \/ k <= indexOfFrom k x l < k + Z.of_nat (List.length l).
Proof.
  destruct (indexOfFrom_spec x l k) as [[_ Hm] | (n & Hn & Hnth & _)].
  - left. exact Hm.
  - right. rewrite Hn.
    assert (n < List.length l)%nat
      by (apply nth_error_Some; congruence).
    lia.
Qed.

Lemma indexOf_zero_iff (x : string) (l : list string) :
  indexOf x l = 0 <-> exists t, l = x :: t.
Proof.
  unfold indexOf. destruct l as [| y t]; simpl.
  - split; [discriminate | intros [t Ht]; discriminate].
  - destruct (String.eqb_spec y x) as [-> | Hne].
    + split; [intros _; now exists t | reflexivity].
    + split.
      * intros H0. destruct (indexOfFrom_range x t 1); lia.
      * intros [t' Ht']. congruence.
Qed.

Lemma indexOfFrom_app_fresh (x : string) (front t : list string) :
  ~ In x front ->
  forall k,
    indexOfFrom k x (front ++ x :: t)%list
      = k + Z.of_nat (List.length front).
Proof.
  induction front as [| y f IH]; intros Hfresh k; simpl.
  - rewrite String.eqb_refl. lia.
  - destruct (String.eqb_spec y x) as [-> | Hne].
    + exfalso. apply Hfresh. now left.
    + rewrite IH by (intros Hin; apply Hfresh; now right). lia.
Qed.

(** An item whose first occurrence is the last position splits the list
    into a front without it and itself. *)
Lemma split_at_last_position (x : string) (l : list string) :
  forall n,
    nth_error l n = Some x ->
    (forall j, (j < n)%nat -> nth_error l j <> Some x) ->
    S n = List.length l ->
    exists front, l = (front ++ [x])%list /\ ~ In x front.
Proof.
  induction l as [| y t IH]; intros n Hnth Hmin Hlen.
  - destruct n; discriminate.
  - destruct n as [| m]; simpl in *.
    + injection Hnth as ->. exists []. split; [| tauto].
      destruct t; [reflexivity | discriminate].
    + destruct (IH m Hnth) as (front & -> & Hfresh).
      * intros j Hj. apply (Hmin (S j)). lia.
      * lia.
      * exists (y :: front). split; [reflexivity |].
        intros [-> | Hin]; [| contradiction].
        apply (Hmin 0%nat); [lia | reflexivity].
Qed.

Lemma indexOf_last_position_iff (x : string) (l : list string) :
  indexOf x l = Z.of_nat (List.length l) - 1
  <-> l = [] \/ exists front, l = (front ++ [x])%list /\ ~ In x front.
Proof.
  unfold indexOf. split.
  - intros Hi.
    destruct (indexOfFrom_spec x l 0) as [[_ Hm] | (n & Hn & Hnth & Hmin)].
    + left. destruct l; [reflexivity | simpl List.length in Hi; lia].
    + right. apply (split_at_last_position x l n Hnth Hmin). lia.
  - intros [-> | (front & -> & Hfresh)].
    + reflexivity.
    + rewrite indexOfFrom_app_fresh by exact Hfresh.
      rewrite length_app. simpl List.length. lia.
Qed.

Lemma last_app_one {A : Type} (front : list A) (c : A) :
  last (front ++ [c])%list = Some c.
Proof.
  induction front as [| y f IH]; [reflexivity |].
  simpl. destruct (f ++ [c])%list eqn:E; [| exact IH].
  destruct f; discriminate.
Qed.

Lemma last_Some_split {A : Type} (l : list A) (c : A) :
  last l = Some c -> exists front, l = (front ++ [c])%list.
Proof.
  induction l as [| y t IH]; [discriminate |].
  simpl. destruct t as [| z t'].
  - intros [= ->]. now exists [].
  - intros H. destruct (IH H) as [front ->]. now exists (y :: front).
Qed.

Lemma last_None {A : Type} (l : list A) : last l = None -> l = [].
Proof.
  induction l as [| y t IH]; [reflexivity |].
  simpl. destruct t; [discriminate |].
  intros H. specialize (IH H). discriminate.
Qed.

End IndexFacts.

(* ===================================================================== *)
(** ** The flags, read against the ordering                              *)
(* ===================================================================== *)

Section Flags.

Variable sel : Selectors.
Variable own : OwnProps.

(** X1.  [isFirst] holds exactly when the first selected block is the head
    of the ordering of its container. *)
Theorem isFirst_iff_head :
  isFirst (composedProps sel own) = true
  <-> exists c rest,
        first (castArray (clientIds own)) = Some c
        /\ blockOrder sel own = c :: rest.
Proof.
  cbn [composedProps isFirst mapSelectToProps sel_isFirst].
  rewrite Z.eqb_eq.
  unfold selectedFirstIndex, firstClientId, normalizedClientIds.
  fold (blockOrder sel own).
  destruct (first (castArray (clientIds own))) as [c |];
    cbn [getBlockIndex].
  - fold (selectedRootClientId sel own). fold (blockOrder sel own).
    rewrite indexOf_zero_iff. split.
    + intros [t Ht]. now exists c, t.
    + intros (c' & rest & [= <-] & Hr). now exists rest.
  - split; [discriminate | intros (c & rest & Hc & _); discriminate].
Qed.

(** X2.  [isLast] holds exactly when the ordering is empty, or when it ends
    in the last selected block and holds it nowhere before. *)
Theorem isLast_iff_tail_end :
  isLast (composedProps sel own) = true
  <-> blockOrder sel own = []
      \/ exists c front,
           last (castArray (clientIds own)) = Some c
           /\ blockOrder sel own = (front ++ [c])%list
           /\ ~ In c front.
Proof.
  cbn [composedProps isLast mapSelectToProps sel_isLast].
  rewrite Z.eqb_eq. unfold lastIndex, normalizedClientIds.
  destruct (last (castArray (clientIds own))) as [c |] eqn:El;
    cbn [getBlockIndex].
  - fold (blockOrder sel own). rewrite indexOf_last_position_iff. split.
    + intros [He | (front & Hf & Hfresh)]; [now left | right].
      now exists c, front.
    + intros [He | (c' & front & [= <-] & Hf & Hfresh)];
        [now left | right]. now exists front.
  - split.
    + intros Hi. left.
      destruct (blockOrder sel own); [reflexivity |].
      simpl List.length in Hi. lia.
    + intros [-> | (c & front & Hc & _)]; [reflexivity | discriminate].
Qed.

End Flags.

(* ===================================================================== *)
(** ** Selections and what they render                                   *)
(* ===================================================================== *)

Section Selections.

Variable sel : Selectors.
Variable own : OwnProps.

(** X3.  With one block selected, the controls are hidden exactly when the
    container is fully locked, or when the block is alone in a
    top-level ordering. *)
Theorem single_block_hidden_iff_alone (__ : string -> string)
        (c : ClientId) :
  castArray (clientIds own) = [c] ->
  (controlsVisible (resolve __ sel own) = false
   <-> getTemplateLock sel (selectedRootClientId sel own) = VStr "all"
       \/ (blockOrder sel own = [c]
           /\ truthy (selectedRootClientId sel own) = false)).
Proof.
  intros Hone. unfold resolve. rewrite controlsVisible_eq.
  cbn [composedProps isLocked isFirst isLast rootClientId mapSelectToProps
         sel_isLocked sel_isFirst sel_isLast sel_rootClientId].
  unfold selectedFirstIndex, lastIndex, firstClientId, normalizedClientIds.
  rewrite Hone. cbn [first last getBlockIndex].
  fold (blockOrder sel own).
  set (lock := getTemplateLock sel (selectedRootClientId sel own)).
  generalize (blockOrder sel own). intros order.
  assert (Halone :
            (indexOf c order =? 0)
            && (indexOf c order =? Z.of_nat (List.length order) - 1) = true
            <-> order = [c]).
  { rewrite andb_true_iff, !Z.eqb_eq. split.
    - intros [H0 Hl]. apply indexOf_zero_iff in H0 as [t ->].
      destruct t as [| d t']; [reflexivity |].
      unfold ClientId in *. rewrite (proj2 (indexOf_zero_iff c (c :: d :: t'))) in Hl
        by now exists (d :: t').
      simpl List.length in Hl. lia.
    - intros ->. split; unfold indexOf; simpl;
        now rewrite String.eqb_refl. }
  destruct (strict_eq lock (VStr "all")) eqn:Elock.
  - apply strict_eq_str in Elock. simpl. tauto.
  - assert (Hneq : lock <> VStr "all").
    { intros Heq. apply strict_eq_str in Heq. congruence. }
    cbn [negb andb]. rewrite negb_false_iff, andb_true_iff, negb_true_iff.
    rewrite Halone. tauto.
Qed.

(** X4.  When the first selected block is not in the ordering (or nothing is
    selected), [firstIndex] is [-1] and nothing is checked: an unlocked
    container still renders an enabled move-earlier control, whose label
    goes from ordinal 0 to ordinal -1. *)
Theorem absent_selection_label :
  (forall c, first (castArray (clientIds own)) = Some c ->
             ~ In c (blockOrder sel own)) ->
  getTemplateLock sel (selectedRootClientId sel own) <> VStr "all" ->
  firstIndex (composedProps sel own) = -1
  /\ exists b1 b2,
      resolve untranslated sel own = Some (b1, b2)
      /\ isDisabled b1 = false
      /\ title b1
         = "Move block " ++ earlierWord (ownHorizontalDirection own)
             ++ " from " ++ locationNoun (ownHorizontalDirection own)
             ++ " 0 to " ++ locationNoun (ownHorizontalDirection own)
             ++ " -1".
Proof.
  intros Habsent Hlock.
  assert (Hidx : firstIndex (composedProps sel own) = -1).
  { cbn [composedProps firstIndex mapSelectToProps sel_firstIndex].
    unfold selectedFirstIndex, firstClientId, normalizedClientIds.
    destruct (first (castArray (clientIds own))) as [c |] eqn:Ef;
      cbn [getBlockIndex]; [| reflexivity].
    apply indexOf_absent. apply Habsent.
    unfold firstClientId, normalizedClientIds in *. reflexivity. }
  split; [exact Hidx |].
  assert (Hfirst : isFirst (composedProps sel own) = false).
  { cbn [composedProps isFirst mapSelectToProps sel_isFirst].
    change (selectedFirstIndex sel own)
      with (firstIndex (composedProps sel own)).
    now rewrite Hidx. }
  assert (Hun : isLocked (composedProps sel own) = false)
    by (apply strict_eq_str_false; exact Hlock).
  unfold resolve, BlockMover. rewrite Hun, Hfirst, Hidx.
  cbn [orb andb negb].
  eexists; eexists; split; [reflexivity |].
  cbn [title isDisabled]. split; [reflexivity |].
  rewrite sprintf_move_template.
  unfold location, firstButtonDirection, earlierWord, locationNoun,
    untranslated.
  cbn [composedProps horizontalDirection].
  destruct (ownHorizontalDirection own); reflexivity.
Qed.

(** X5.  For one selected block that is in the ordering, the ordinals in the
    labels stay within [1 .. length]: the current ordinal always, the
    earlier target while the earlier control is enabled, the later
    target while the later control is enabled. *)
Theorem single_selection_ordinals_in_range (__ : string -> string)
        (c : ClientId) :
  castArray (clientIds own) = [c] ->
  In c (blockOrder sel own) ->
  let r := resolve __ sel own in
  let i := firstIndex (composedProps sel own) in
  let n := Z.of_nat (List.length (blockOrder sel own)) in
  1 <= i + 1 <= n
  /\ (moveEarlierEnabled r = true -> 1 <= i)
  /\ (moveLaterEnabled r = true -> i + 2 <= n).
Proof.
  intros Hone Hin r i n. subst r. unfold resolve.
  rewrite moveEarlierEnabled_eq, moveLaterEnabled_eq.
  assert (Hi : i = indexOf c (blockOrder sel own)).
  { subst i. cbn [composedProps firstIndex mapSelectToProps sel_firstIndex].
    unfold selectedFirstIndex, firstClientId, normalizedClientIds.
    now rewrite Hone. }
  assert (Hl : lastIndex sel own = i).
  { rewrite Hi. unfold lastIndex, normalizedClientIds. now rewrite Hone. }
  assert (Hrange : 0 <= i < n).
  { destruct (indexOf_present c _ Hin) as (H0 & Hnth & _).
    rewrite <- Hi in H0, Hnth. split; [exact H0 |].
    assert (Z.to_nat i < List.length (blockOrder sel own))%nat
      by (apply nth_error_Some; congruence).
    subst n. lia. }
  cbn [composedProps isFirst isLast isLocked mapSelectToProps sel_isFirst
         sel_isLast sel_isLocked].
  change (selectedFirstIndex sel own) with i. rewrite Hl. fold n.
  split; [lia | split].
  - intros He. apply andb_true_iff in He as [He _].
    apply negb_true_iff, Z.eqb_neq in He. lia.
  - intros He. apply andb_true_iff in He as [He _].
    apply negb_true_iff, Z.eqb_neq in He. lia.
Qed.

(** X6.  A selection that is the whole ordering, without repeats, is first
    and last at once: neither control is enabled. *)
Theorem whole_ordering_selected (__ : string -> string) :
  castArray (clientIds own) = blockOrder sel own ->
  blockOrder sel own <> [] ->
  NoDup (blockOrder sel own) ->
  isFirst (composedProps sel own) = true
  /\ isLast (composedProps sel own) = true
  /\ moveEarlierEnabled (resolve __ sel own) = false
  /\ moveLaterEnabled (resolve __ sel own) = false.
Proof.
  intros Hall Hne Hnd.
  assert (Hfirst : isFirst (composedProps sel own) = true).
  { cbn [composedProps isFirst mapSelectToProps sel_isFirst].
    unfold selectedFirstIndex, firstClientId, normalizedClientIds.
    rewrite Hall. fold (blockOrder sel own).
    destruct (blockOrder sel own) as [| c rest] eqn:Eo; [contradiction |].
    cbn [first getBlockIndex]. fold (selectedRootClientId sel own).
    fold (blockOrder sel own). rewrite Eo.
    apply Z.eqb_eq, indexOf_zero_iff. now exists rest. }
  assert (Hlast : isLast (composedProps sel own) = true).
  { cbn [composedProps isLast mapSelectToProps sel_isLast].
    unfold lastIndex, normalizedClientIds. rewrite Hall.
    destruct (last (blockOrder sel own)) as [d |] eqn:El.
    - cbn [getBlockIndex]. fold (blockOrder sel own).
      apply Z.eqb_eq, indexOf_last_position_iff. right.
      destruct (last_Some_split _ _ El) as [front Hf].
      exists front. split; [exact Hf |].
      rewrite Hf in Hnd. apply NoDup_remove_2 in Hnd.
      now rewrite app_nil_r in Hnd.
    - apply last_None in El. contradiction. }
  unfold resolve. rewrite moveEarlierEnabled_eq, moveLaterEnabled_eq.
  rewrite Hfirst, Hlast. repeat split.
Qed.

End Selections.

Lemma single_block_hidden_iff_alone_witness :
  controlsVisible
    (resolve untranslated (snapshot (VStr "") ["A"] VUndefined) selectA)
  = false.
Proof.
  apply (single_block_hidden_iff_alone
           (snapshot (VStr "") ["A"] VUndefined) selectA untranslated "A");
    [reflexivity |].
  right. split; reflexivity.
Defined.

Lemma absent_selection_label_witness :
  exists b1 b2,
    resolve untranslated abc
      {| clientIds := ManyIds []; ownHorizontalDirection := false |}
    = Some (b1, b2)
    /\ isDisabled b1 = false
    /\ title b1 = "Move block up from row 0 to row -1".
Proof.
  apply (absent_selection_label abc
           {| clientIds := ManyIds []; ownHorizontalDirection := false |});
    [intros c Hc; discriminate Hc | discriminate].
Defined.

Lemma single_selection_ordinals_in_range_witness :
  1 <= 1 + 1 <= 3 /\ 1 <= 1 /\ 1 + 2 <= 3.
Proof.
  destruct (single_selection_ordinals_in_range abc selectB untranslated "B")
    as (Hc & He & Hl);
    [reflexivity | simpl; tauto |].
  split; [exact Hc | split; [apply He | apply Hl]]; reflexivity.
Defined.

Lemma whole_ordering_selected_witness :
  let own := {| clientIds := ManyIds ["A"; "B"; "C"];
                ownHorizontalDirection := false |} in
  isFirst (composedProps abc own) = true
  /\ isLast (composedProps abc own) = true
  /\ moveEarlierEnabled (resolve untranslated abc own) = false
  /\ moveLaterEnabled (resolve untranslated abc own) = false.
Proof.
  intros own.
  apply (whole_ordering_selected abc own untranslated).
  - reflexivity.
  - discriminate.
  - repeat constructor; simpl; intuition discriminate.
Defined.

(* ===================================================================== *)
(** ** The two buttons of a rendering                                    *)
(* ===================================================================== *)

Section Buttons.

(** X7.  A rendering with both buttons disabled only occurs inside a root
    container: at the top level at least one control can be used. *)
Theorem both_disabled_only_nested (__ : string -> string) (p : Props)
        (b1 b2 : ToolbarButton) :
  BlockMover __ p = Some (b1, b2) ->
  isDisabled b1 = true ->
  isDisabled b2 = true ->
  truthy (rootClientId p) = true.
Proof.
  unfold BlockMover.
  destruct (isLocked p
            || (isFirst p && isLast p && negb (truthy (rootClientId p))))
    eqn:Ehide; [discriminate |].
  intros Hr. injection Hr as <- <-. cbn [isDisabled].
  intros Hf Hl. rewrite Hf, Hl in Ehide.
  apply orb_false_iff in Ehide as [_ Ehide].
  cbn [andb] in Ehide. now apply negb_false_iff in Ehide.
Qed.

(** X8.  The two buttons of a rendering never share a label, a hint or an
    icon, whatever the flags, the index and the axis. *)
Theorem buttons_told_apart (p : Props) (b1 b2 : ToolbarButton) :
  BlockMover untranslated p = Some (b1, b2) ->
  title b1 <> title b2 /\ hint b1 <> hint b2 /\ icon b1 <> icon b2.
Proof.
  unfold BlockMover.
  destruct (isLocked p
            || (isFirst p && isLast p && negb (truthy (rootClientId p))));
    [discriminate |].
  intros Hr. injection Hr as <- <-. cbn [title hint icon].
  rewrite !sprintf_move_template.
  unfold firstBlockTitle, lastBlockTitle, firstButtonDirection,
    secondButtonDirection, location, firstButtonHint, secondButtonHint,
    firstButtonIcon, secondButtonIcon, untranslated.
  cbn [toString].
  destruct (horizontalDirection p), (isFirst p), (isLast p);
    cbn [negb append]; repeat split; discriminate.
Qed.

End Buttons.

Lemma both_disabled_only_nested_witness :
  truthy (VStr "group") = true.
Proof.
  pose (s := snapshot (VStr "group") ["A"] VUndefined).
  destruct (BlockMover untranslated (composedProps s selectA))
    as [[b1 b2] |] eqn:Er; [| discriminate Er].
  apply (both_disabled_only_nested untranslated (composedProps s selectA)
           b1 b2 Er);
    vm_compute in Er; injection Er as <- <-; reflexivity.
Defined.

Lemma buttons_told_apart_witness :
  exists b1 b2,
    BlockMover untranslated (composedProps abc selectB) = Some (b1, b2)
    /\ title b1 <> title b2 /\ hint b1 <> hint b2 /\ icon b1 <> icon b2.
Proof.
  eexists; eexists; split; [reflexivity |].
  apply (buttons_told_apart (composedProps abc selectB)). reflexivity.
Defined.

(* ===================================================================== *)
(** ** [reduceMotion]: arguments that are not the two property names     *)
(* ===================================================================== *)

Section MotionCases.

(** X9.  Only [undefined] stands for the default: every other argument that
    is not one of the two property names, [null] included, gets both
    declarations. *)
Theorem reduceMotion_only_undefined_defaults (v : value) :
  v <> VUndefined ->
  v <> VStr "transition" ->
  v <> VStr "animation" ->
  reduceMotion v = inReducedMotionQuery bothDeclarations.
Proof.
  intros Hu Ht Ha. unfold reduceMotion.
  destruct v as [| | b | n | s]; try reflexivity.
  - contradiction.
  - rewrite (strict_eq_str_false (VStr s) "transition") by exact Ht.
    rewrite (strict_eq_str_false (VStr s) "animation") by exact Ha.
    reflexivity.
Qed.

(** X10.  The fragment sets [transition-duration] unless the argument is
    ['animation'], and sets [animation-duration] unless the argument is
    ['transition'] or missing. *)
Theorem reduceMotion_declares (v : value) :
  (String.index 0 "transition-duration: 0ms;" (reduceMotion v) = None
   <-> v = VStr "animation")
  /\ (String.index 0 "animation-duration: 1ms;" (reduceMotion v) = None
      <-> v = VUndefined \/ v = VStr "transition").
Proof.
  destruct v as [| | b | n | s].
  1-4: split; split; intros H;
    solve [ vm_compute; reflexivity
          | vm_compute in H; discriminate H
          | discriminate H
          | destruct H as [H | H]; discriminate H
          | auto ].
  destruct (string_dec s "transition") as [-> | Ht];
    [| destruct (string_dec s "animation") as [-> | Ha]].
  1-2: split; split; intros H;
    solve [ vm_compute; reflexivity
          | vm_compute in H; discriminate H
          | discriminate H
          | destruct H as [H | H]; discriminate H
          | auto ].
  rewrite (reduceMotion_other s Ht Ha).
  split; split; intros H;
    solve [ vm_compute in H; discriminate H
          | congruence
          | destruct H as [H | H]; congruence ].
Qed.

End MotionCases.

Lemma reduceMotion_only_undefined_defaults_witness :
  reduceMotion VNull = inReducedMotionQuery bothDeclarations.
Proof.
  apply (reduceMotion_only_undefined_defaults VNull); discriminate.
Defined.

(* ===================================================================== *)
(** ** The sidebar item: names, the check mark, the click                *)
(* ===================================================================== *)

Import MoreMenu MenuSamples.

Section SidebarNames.

(** Two texts joined by [/] can be split again when the part before the
    separator holds none. *)
Lemma slash_join_injective (a b s t : string) :
  slashFree a = true -> slashFree b = true ->
  a ++ "/" ++ s = b ++ "/" ++ t ->
  a = b /\ s = t.
Proof.
  revert b. induction a as [| x a IH]; intros [| y b] Ha Hb Heq;
    simpl in *.
  - injection Heq as ->. now split.
  - injection Heq as <- _.
    apply andb_true_iff in Hb as [Hy _]. discriminate Hy.
  - injection Heq as -> _.
    apply andb_true_iff in Ha as [Hx _]. discriminate Hx.
  - injection Heq as -> Heq.
    apply andb_true_iff in Ha as [_ Ha].
    apply andb_true_iff in Hb as [_ Hb].
    destruct (IH b Ha Hb Heq) as [-> ->]. now split.
Qed.

(** X11.  Plugins whose names hold no [/] never share a sidebar name: the
    name determines the plugin and the target. *)
Theorem sidebarName_injective (c1 c2 : PluginContext)
        (o1 o2 : ItemOwnProps) :
  slashFree (name c1) = true ->
  slashFree (name c2) = true ->
  sidebarName c1 o1 = sidebarName c2 o2 ->
  name c1 = name c2 /\ toString (target o1) = toString (target o2).
Proof.
  unfold sidebarName. intros H1 H2 Heq.
  exact (slash_join_injective _ _ _ _ H1 H2 Heq).
Qed.

(** With a [/] in a plugin name the sidebar names can coincide. *)
Lemma sidebarName_collision :
  sidebarName {| name := "a/b"; contextIcon := IconPlain VUndefined |}
              {| target := VStr "c"; ownIcon := IconPlain VUndefined;
                 ownChildren := "" |}
  = sidebarName {| name := "a"; contextIcon := IconPlain VUndefined |}
                {| target := VStr "b/c"; ownIcon := IconPlain VUndefined;
                   ownChildren := "" |}.
Proof. reflexivity. Qed.

(** X12.  Against one state of the store, for plugins with [/]-free
    names: when one item is selected, another is selected too exactly
    when it has the same plugin name and its target is written the same
    ([String( target )], so the targets [1] and ['1'] count as one).
    Items that differ in plugin name or in the written target are never
    both selected. *)
Theorem at_most_one_item_selected (active : value)
        (c1 c2 : PluginContext) (o1 o2 : ItemOwnProps) :
  slashFree (name c1) = true ->
  slashFree (name c2) = true ->
  item_isSelected (menuItem active c1 o1) = true ->
  (item_isSelected (menuItem active c2 o2) = true
   <-> name c1 = name c2
       /\ toString (target o1) = toString (target o2))
  /\ (name c1 <> name c2
      \/ toString (target o1) <> toString (target o2) ->
      item_isSelected (menuItem active c2 o2) = false).
Proof.
  intros H1 H2 Hsel1.
  cbn [menuItem PluginSidebarMoreMenuItem item_isSelected composedItemProps
         isSelected] in *.
  unfold mapSelectIsSelected in *.
  apply strict_eq_str in Hsel1. subst active.
  assert (Hiff :
            strict_eq (VStr (sidebarName c1 o1)) (VStr (sidebarName c2 o2))
              = true
            <-> name c1 = name c2
                /\ toString (target o1) = toString (target o2)).
  { rewrite strict_eq_str. split.
    - intros [= Heq].
      exact (slash_join_injective _ _ _ _ H1 H2 Heq).
    - intros [Hn Ht]. unfold sidebarName. now rewrite Hn, Ht. }
  split; [exact Hiff |].
  intros Hdiff.
  destruct (strict_eq (VStr (sidebarName c1 o1))
                      (VStr (sidebarName c2 o2))); [| reflexivity].
  destruct (proj1 Hiff eq_refl) as [Hn Ht].
  destruct Hdiff; contradiction.
Qed.

(** X13.  The item shows an icon whenever it is selected, or has an icon of
    its own, or its plugin has one: the check mark, the own icon, the
    plugin's icon, in this order of precedence. *)
Theorem item_icon_precedence (active : value) (context : PluginContext)
        (own : ItemOwnProps) :
  let item := menuItem active context own in
  (item_isSelected item = true -> item_icon item = check)
  /\ (item_isSelected item = false -> truthyIcon (ownIcon own) = true ->
      item_icon item = ownIcon own)
  /\ (item_isSelected item = false -> truthyIcon (ownIcon own) = false ->
      item_icon item = contextIcon context)
  /\ (truthyIcon (item_icon item) = true
      <-> item_isSelected item = true
          \/ truthyIcon (ownIcon own) = true
          \/ truthyIcon (contextIcon context) = true).
Proof.
  cbn. unfold contextMappedIcon, iconOr.
  destruct (mapSelectIsSelected active (sidebarName context own));
    destruct (truthyIcon (ownIcon own)) eqn:Eown;
    destruct (truthyIcon (contextIcon context)) eqn:Ectx;
    repeat split; intros; try discriminate; try reflexivity;
    try congruence; auto;
    try (destruct H as [H | [H | H]]; discriminate H).
Qed.

End SidebarNames.

Lemma item_icon_precedence_witness :
  item_icon (menuItem VNull myPlugin mySidebarItem)
  = IconPlain (VStr "admin-plugins").
Proof.
  apply (proj1 (proj2 (proj2 (item_icon_precedence VNull myPlugin
                                 mySidebarItem))));
    reflexivity.
Defined.

Lemma sidebarName_injective_witness :
  name myPlugin = "my-plugin"
  /\ toString (target mySidebarItem) = "my-sidebar".
Proof.
  apply (sidebarName_injective
           myPlugin {| name := "my-plugin"; contextIcon := check |}
           mySidebarItem
           {| target := VStr "my-sidebar"; ownIcon := IconElement "more";
              ownChildren := "Another label" |});
    reflexivity.
Defined.

Lemma at_most_one_item_selected_witness :
  item_isSelected
    (menuItem (VStr "my-plugin/my-sidebar") otherPlugin secondItem) = false
  /\ item_isSelected
       (menuItem (VStr "p/1")
          {| name := "p"; contextIcon := IconPlain VUndefined |}
          {| target := VStr "1"; ownIcon := IconPlain VUndefined;
             ownChildren := "text" |}) = true.
Proof.
  split.
  - apply (proj2 (at_most_one_item_selected (VStr "my-plugin/my-sidebar")
                    myPlugin otherPlugin mySidebarItem secondItem
                    eq_refl eq_refl eq_refl)).
    left. discriminate.
  - apply (proj1 (at_most_one_item_selected (VStr "p/1")
                    {| name := "p"; contextIcon := IconPlain VUndefined |}
                    {| name := "p"; contextIcon := IconPlain VUndefined |}
                    {| target := VNum 1; ownIcon := IconPlain VUndefined;
                       ownChildren := "number" |}
                    {| target := VStr "1"; ownIcon := IconPlain VUndefined;
                       ownChildren := "text" |}
                    eq_refl eq_refl eq_refl)).
    split; reflexivity.
Defined.

Section Clicks.

Variable Store : Type.
Variable getActiveGeneralSidebarName : Store -> value.
Variable dispatch : SidebarAction -> Store -> Store.

(** What the external mutator is taken to do: opening a sidebar makes
    it the active one, closing leaves none active. *)
Hypothesis open_activates :
  forall n st,
    getActiveGeneralSidebarName (dispatch (openGeneralSidebar n) st)
    = VStr n.
Hypothesis close_clears :
  forall st,
    getActiveGeneralSidebarName (dispatch closeGeneralSidebar st) = VNull.

(** X14.  A click toggles the item: rendered again after a click on it, the
    item is selected iff it was not, and it shows the check mark when
    it is. *)
Theorem click_toggles_item (context : PluginContext) (own : ItemOwnProps)
        (st : Store) :
  let r := evalState
             (renderClickRender Store getActiveGeneralSidebarName dispatch
                                context own) st in
  item_isSelected (snd r) = negb (item_isSelected (fst r))
  /\ (item_isSelected (snd r) = true -> item_icon (snd r) = check).
Proof.
  cbn. unfold mapSelectIsSelected, mapDispatchOnClick.
  destruct (strict_eq (getActiveGeneralSidebarName st)
                      (VStr (sidebarName context own))) eqn:Esel.
  - rewrite close_clears. cbn. split; [reflexivity | discriminate].
  - rewrite open_activates. cbn. rewrite String.eqb_refl. cbn.
    split; reflexivity.
Qed.

(** X15.  A click on one item leaves every item with another sidebar name
    unselected, whatever was active before. *)
Theorem click_unselects_others (context other : PluginContext)
        (own otherOwn : ItemOwnProps) (st : Store) :
  sidebarName other otherOwn <> sidebarName context own ->
  let clicked :=
    execState
      (item <- renderItem Store getActiveGeneralSidebarName context own ;;
       click Store dispatch item)%monad st in
  item_isSelected
    (evalState (renderItem Store getActiveGeneralSidebarName other otherOwn)
               clicked)
  = false.
Proof.
  intros Hdiff. cbn. unfold mapSelectIsSelected, mapDispatchOnClick.
  destruct (strict_eq (getActiveGeneralSidebarName st)
                      (VStr (sidebarName context own))).
  - rewrite close_clears. reflexivity.
  - rewrite open_activates. cbn.
    apply String.eqb_neq. congruence.
Qed.

End Clicks.

Lemma click_toggles_item_witness :
  let r := evalState
             (renderClickRender NameStore nameOf nameDispatch
                                myPlugin mySidebarItem) VNull in
  item_isSelected (fst r) = false
  /\ item_isSelected (snd r) = true
  /\ item_icon (snd r) = check.
Proof.
  intros r.
  destruct (click_toggles_item NameStore nameOf nameDispatch
              (fun n st => eq_refl) (fun st => eq_refl)
              myPlugin mySidebarItem VNull) as [Ht Hc].
  split; [reflexivity | split; [reflexivity | apply Hc; reflexivity]].
Defined.

Lemma click_unselects_others_witness :
  item_isSelected
    (evalState (renderItem NameStore nameOf otherPlugin secondItem)
       (execState
          (item <- renderItem NameStore nameOf myPlugin mySidebarItem ;;
           click NameStore nameDispatch item)%monad
          (VStr "other/second")))
  = false.
Proof.
  apply (click_unselects_others NameStore nameOf nameDispatch
           (fun n st => eq_refl) (fun st => eq_refl)
           myPlugin otherPlugin mySidebarItem secondItem
           (VStr "other/second")).
  discriminate.
Defined.
